(** * Item detection: the per-frame processor of [streamlit_app.py]

    A shallow embedding of [YOLOProcessor] (lazy model construction, the
    per-frame callback [recv], the caption and its anchor) and of the
    control binding at the end of the script, with the properties the
    specification states about them.

    Python values are modelled as follows.
    - [float]: IEEE 754 binary64, as [spec_float] with the operations of
      [SpecFloat] at precision 53 and maximal exponent 1024.
    - [int]: [Z].  The four box coordinates are numpy [int64] scalars
      (the result of [astype(int)]); their arithmetic wraps, see [wrap64].
    - [str]: [string].
    - [dict] with integer keys: [gmap Z string]; [list]/[tuple]: [list].
    - an exception: the left summand of [Exn + A].
    - the libraries (ultralytics, cv2, av): the class [Libraries].

    The callback is run by one thread at a time: [_model_lock] is shown
    as a comment where it is taken. *)

From Stdlib Require Import ZArith Lia Bool List String Ascii DecimalString.
From Stdlib Require Import QArith Qabs Qpower.
From Stdlib Require Import Floats.SpecFloat.
From stdpp Require Import base option list gmap strings.

Local Open Scope string_scope.
Local Open Scope Z_scope.

(** ** Python floats *)

Module PyFloat.

Definition prec : Z := 53.
Definition emax : Z := 1024.

Definition float := spec_float.

Definition mul : float -> float -> float := SFmul prec emax.
Definition leb : float -> float -> bool := SFleb.
Definition valid : float -> bool := valid_binary prec emax.

(** The literals of the source, as the doubles Python reads them as. *)
Definition f0_0 : float := S754_zero false.
Definition f1_0 : float := S754_finite false 4503599627370496 (-52).
Definition f100 : float := S754_finite false 7036874417766400 (-46).
Definition f0_1 : float := S754_finite false 7205759403792794 (-56).
Definition f0_9 : float := S754_finite false 8106479329266893 (-53).
Definition f0_25 : float := S754_finite false 4503599627370496 (-54).
Definition f0_05 : float := S754_finite false 7205759403792794 (-57).
Definition f0_6 : float := S754_finite false 5404319552844595 (-53).
Definition f0_83 : float := S754_finite false 7475975381435023 (-53).
(** [float(numpy.float32(0.83))] *)
Definition f0_83_single : float := S754_finite false 7475975231111168 (-53).

Definition sign_bit (x : float) : bool :=
  match x with
  | S754_zero s | S754_infinity s | S754_finite s _ _ => s
  | S754_nan => false
  end.

(** The number a finite float stands for. *)
Definition to_Q (x : float) : option Q :=
  match x with
  | S754_zero _ => Some 0%Q
  | S754_finite s m e =>
      Some ((if s then -(1) else 1) * inject_Z (Z.pos m) * 2 ^ e)%Q
  | _ => None
  end.

(** A double between [+0.0] and [1.0]. *)
Definition in_unit_interval (c : float) : bool :=
  valid c && negb (sign_bit c) && leb c f1_0.


(** [n] is an integer nearest to [q]: none is closer. *)
Definition nearest_integer (q : Q) (n : Z) : Prop :=
  forall k : Z, (Qabs (inject_Z n - q) <= Qabs (inject_Z k - q))%Q.

(** [str(n)] for a Python [int]. *)
Definition str_int (n : Z) : string := NilZero.string_of_int (Z.to_int n).

(** The integer nearest to [m * 2^e], ties to the even one: the
    correctly rounded conversion that [format(x, ".0f")] performs. *)
Definition round_half_even (m : positive) (e : Z) : Z :=
  match e with
  | Zneg k =>
      let d := Z.pow_pos 2 k in
      let q := Z.pos m / d in
      let r := Z.pos m mod d in
      match 2 * r ?= d with
      | Lt => q
      | Gt => q + 1
      | Eq => if Z.even q then q else q + 1
      end
  | _ => Z.pos m * 2 ^ e
  end.

(** [format(x, ".0f")], the conversion of [f"{x:.0f}"]. *)
Definition format_0f (x : float) : string :=
  match x with
  | S754_nan => "nan"
  | S754_infinity s => if s then "-inf" else "inf"
  | S754_zero s => if s then "-0" else "0"
  | S754_finite s m e =>
      (if s then "-" else "") +:+ str_int (round_half_even m e)
  end.

(** Two decimal digits, with a leading zero below ten. *)
Definition two_digits (n : Z) : string :=
  (if n <? 10 then "0" else "") +:+ str_int n.

(** [format(x, ".2f")], the conversion of [f"{x:.2f}"]: the hundredths
    nearest to the number the double stands for, ties to even. *)
Definition format_2f (x : float) : string :=
  match x with
  | S754_nan => "nan"
  | S754_infinity s => if s then "-inf" else "inf"
  | S754_zero s => (if s then "-" else "") +:+ "0.00"
  | S754_finite s m e =>
      let n := round_half_even (100 * m) e in
      (if s then "-" else "") +:+ str_int (n / 100) +:+ "." +:+
      two_digits (n mod 100)
  end.

End PyFloat.

Import PyFloat.

(** ** Data model *)

(** [st.slider(..., min_value, max_value, value, step)] *)
Record Slider := mkSlider {
  min_value : float;
  max_value : float;
  value : float;
  step : float
}.

(** Line 44. *)
Definition conf_slider : Slider := mkSlider f0_1 f0_9 f0_25 f0_05.

(** What the widget can return: a value between its two ends. *)
Definition slider_returns (sl : Slider) (v : float) : bool :=
  leb (min_value sl) v && leb v (max_value sl).

(** One element of [res.boxes].  [xyxy] is the row [box.xyxy[0]] after
    [.astype(int)]; [conf] and [cls] are [None] or a tensor whose first
    entry is read with [float(...)], respectively [int(...)]. *)
Record Box := mkBox {
  xyxy : Z * Z * Z * Z;
  conf : option float;
  cls : option Z
}.

(** [results[0]]: [boxes] may be [None]. *)
Record Results := mkResults { boxes : option (list Box) }.

(** The value of [self.names]: a [dict], a [list] or [tuple], or
    anything else ([None] before the model is loaded). *)
Inductive Names :=
| names_dict (d : gmap Z string)
| names_seq (l : list string)
| names_other.

Inductive Font := FONT_HERSHEY_SIMPLEX.
Inductive LineType := LINE_AA.

(** The two drawing calls made on the frame, with all their arguments. *)
Inductive Cv2Call :=
| rectangle (pt1 pt2 : Z * Z) (color : Z * Z * Z) (thickness : Z)
| putText (text : string) (org : Z * Z) (fontFace : Font)
    (fontScale : float) (color : Z * Z * Z) (thickness : Z)
    (lineType : LineType).

(** Calls into the libraries, in the order they are made. *)
Inductive Event :=
| ev_import
| ev_construct (weights : string)
| ev_predict (threshold : float)
| ev_cv2 (c : Cv2Call).

Inductive Exn := AttributeError | IndexError.

(** ** Pure parts of the loop body of [recv] *)

(** numpy [int64] arithmetic wraps around. *)
Definition wrap64 (z : Z) : Z := (z + 2 ^ 63) mod 2 ^ 64 - 2 ^ 63.


(** [float(box.conf[0]) if box.conf is not None else 0.0] *)
Definition conf_of (b : Box) : float :=
  match conf b with
  | Some c => c
  | None => f0_0
  end.

(** [int(box.cls[0]) if box.cls is not None else -1] *)
Definition cls_id_of (b : Box) : Z :=
  match cls b with
  | Some c => c
  | None => -1
  end.

(** Lines 85-87: [dict.get] with a default, a guarded subscript of a
    sequence (a subscript out of range raises), or [str(cls_id)]. *)
Definition label_of (names : Names) (cls_id : Z) : Exn + string :=
  match names with
  | names_dict d => inr (default (str_int cls_id) (d !! cls_id))
  | names_seq l =>
      if (0 <=? cls_id) && (cls_id <? Z.of_nat (length l))
      then match l !! Z.to_nat cls_id with
           | Some name => inr name
           | None => inl IndexError
           end
      else inr (str_int cls_id)
  | names_other => inr (str_int cls_id)
  end.

(** The label as a string; [label_of_total] shows that [label_of]
    always returns it. *)
Definition label_text (names : Names) (cls_id : Z) : string :=
  match label_of names cls_id with
  | inr label => label
  | inl _ => ""
  end.

(** The Label Map has no entry for [cls_id]. *)
Definition lookup_fails (names : Names) (cls_id : Z) : Prop :=
  match names with
  | names_dict d => d !! cls_id = None
  | names_seq l => ~ (0 <= cls_id < Z.of_nat (length l))
  | names_other => True
  end.

(** The Label Map holds [name] for [cls_id]. *)
Definition lookup_finds (names : Names) (cls_id : Z) (name : string) : Prop :=
  match names with
  | names_dict d => d !! cls_id = Some name
  | names_seq l => 0 <= cls_id /\ l !! Z.to_nat cls_id = Some name
  | names_other => False
  end.

(** [f"{label} {conf*100:.0f}%"] *)
Definition caption_of (label : string) (c : float) : string :=
  label +:+ " " +:+ format_0f (mul c f100) +:+ "%".

Definition color : Z * Z * Z := (199, 132, 2).

(** [(x1, max(0, y1 - 8))] *)
Definition text_org (x1 y1 : Z) : Z * Z := (x1, Z.max 0 (wrap64 (y1 - 8))).

(** The two calls of one iteration of the loop over [res.boxes], once
    the label is known. *)
Definition box_calls (label : string) (b : Box) : list Cv2Call :=
  let '(x1, y1, x2, y2) := xyxy b in
  let caption := caption_of label (conf_of b) in
  [ rectangle (x1, y1) (x2, y2) color 2;
    putText caption (text_org x1 y1) FONT_HERSHEY_SIMPLEX f0_6 color 2 LINE_AA ].

(** The sequence the loop of [recv] runs over: [res.boxes], nothing when
    it is [None]. *)
Definition detections (res : Results) : list Box :=
  match boxes res with
  | Some bs => bs
  | None => []
  end.

(** The calls of a whole pass over [bs]. *)
Definition draw_calls (nm : Names) (bs : list Box) : list Cv2Call :=
  flat_map (fun b => box_calls (label_text nm (cls_id_of b)) b) bs.

Definition is_construct (ev : Event) : bool :=
  match ev with ev_construct _ => true | _ => false end.
Definition is_predict (ev : Event) : bool :=
  match ev with ev_predict _ => true | _ => false end.
Definition is_cv2 (ev : Event) : bool :=
  match ev with ev_cv2 _ => true | _ => false end.

(** How many model instances were constructed, how many inference calls
    and how many drawing calls were made. *)
Definition constructions (l : list Event) : nat :=
  length (List.filter is_construct l).
Definition inferences (l : list Event) : nat :=
  length (List.filter is_predict l).
Definition drawings (l : list Event) : nat :=
  length (List.filter is_cv2 l).

Definition is_import (ev : Event) : bool :=
  match ev with ev_import => true | _ => false end.

(** How often the lazy import ran. *)
Definition imports (l : list Event) : nat :=
  length (List.filter is_import l).

(** The corners of the rectangles among the calls, and the captions
    with their anchors, each in the order drawn. *)
Definition rectangles (calls : list Cv2Call) : list (Z * Z * Z * Z) :=
  flat_map
    (fun c =>
       match c with
       | rectangle (x1, y1) (x2, y2) _ _ => [(x1, y1, x2, y2)]
       | _ => []
       end)
    calls.

Definition captions (calls : list Cv2Call) : list (string * (Z * Z)) :=
  flat_map
    (fun c =>
       match c with
       | putText text org _ _ _ _ _ => [(text, org)]
       | _ => []
       end)
    calls.

(** What the status placeholder shows. *)
Inductive Status :=
| info (text : string)
| warning (text : string).

(** Lines 128-129: the text of the status line of a connected session. *)
Definition status_line (enable_detection : bool) (conf_threshold : float)
    : string :=
  let status_text := if enable_detection then "Running" else "Paused" in
  "Status: " +:+ status_text +:+ " | Threshold: " +:+
  format_2f conf_threshold.

(** ** The libraries *)

(** [VideoFrame] and its two conversions come from av, [cv2] is the
    effect of one drawing call on an array, the rest is ultralytics: the
    class the lazy import binds, its constructor, the [names] attribute
    of a model and [predict].  The calls are taken to return: what the
    libraries may raise themselves (weights that cannot be fetched, a
    backend error during inference) is not modelled. *)
Class Libraries := {
  VideoFrame : Type;
  Img : Type;
  Cls : Type;
  Model : Type;
  to_ndarray : VideoFrame -> Img;
  from_ndarray : Img -> VideoFrame;
  cv2 : Cv2Call -> Img -> Img;
  ultralytics_YOLO : Cls;
  construct : Cls -> string -> Model;
  model_names : Model -> Names;
  predict : Model -> Img -> float -> list Results
}.

(** ** The processor *)

Section Processor.

Context `{Libraries}.

(** The fields of a [YOLOProcessor], the module global [YOLO] and the
    calls made so far. *)
Record State := mkState {
  model : option Model;
  names : Names;
  confidence_threshold : float;
  enable : bool;
  YOLO : option Cls;
  log : list Event
}.

Definition set_model (m : option Model) (s : State) : State :=
  mkState m (names s) (confidence_threshold s) (enable s) (YOLO s) (log s).
Definition set_names (n : Names) (s : State) : State :=
  mkState (model s) n (confidence_threshold s) (enable s) (YOLO s) (log s).
Definition set_confidence_threshold (t : float) (s : State) : State :=
  mkState (model s) (names s) t (enable s) (YOLO s) (log s).
Definition set_enable (e : bool) (s : State) : State :=
  mkState (model s) (names s) (confidence_threshold s) e (YOLO s) (log s).
Definition set_YOLO (y : option Cls) (s : State) : State :=
  mkState (model s) (names s) (confidence_threshold s) (enable s) y (log s).
Definition add_log (evs : list Event) (s : State) : State :=
  mkState (model s) (names s) (confidence_threshold s) (enable s) (YOLO s)
    (log s ++ evs).

(** Statements run in a state and end in a value or an exception; the
    state changes made before an exception stay. *)
Definition M (A : Type) : Type := State -> (Exn + A) * State.

Definition ret {A} (a : A) : M A := fun s => (inr a, s).
Definition raise {A} (e : Exn) : M A := fun s => (inl e, s).
Definition bind {A B} (c : M A) (k : A -> M B) : M B :=
  fun s =>
    match c s with
    | (inr a, s') => k a s'
    | (inl e, s') => (inl e, s')
    end.
Definition lift {A} (r : Exn + A) : M A := fun s => (r, s).
Definition get : M State := fun s => (inr s, s).
Definition modify (f : State -> State) : M unit := fun s => (inr tt, f s).
Definition emit (ev : Event) : M unit := modify (add_log [ev]).

#[local] Instance M_ret : MRet M := @ret.
#[local] Instance M_bind : MBind M := fun A B k c => bind c k.

(** [YOLOProcessor.__init__], with the global as the module sets it. *)
Definition init : State :=
  mkState None names_other f0_25 true None [].

Definition get_yolo_class : M Cls :=
  s ← get;
  match YOLO s with
  | None =>
      emit ev_import;;
      modify (set_YOLO (Some ultralytics_YOLO));;
      ret ultralytics_YOLO
  | Some c => ret c
  end.

Definition _load_model_once : M unit :=
  s ← get;
  match model s with
  | None =>
      (* with self._model_lock: *)
      s ← get;
      match model s with
      | None =>
          YOLOCls ← get_yolo_class;
          emit (ev_construct "yolov8n.pt");;
          let m := construct YOLOCls "yolov8n.pt" in
          modify (set_model (Some m));;
          modify (set_names (model_names m))
      | Some _ => ret tt
      end
  | Some _ => ret tt
  end.

(** The array after the given calls. *)
Definition draw (calls : list Cv2Call) (img : Img) : Img :=
  fold_left (fun i c => cv2 c i) calls img.

(** The loop [for box in res.boxes]; [self.names] is read at each
    iteration. *)
Fixpoint annotate (img : Img) (bs : list Box) : M Img :=
  match bs with
  | [] => ret img
  | b :: bs' =>
      s ← get;
      label ← lift (label_of (names s) (cls_id_of b));
      modify (add_log (map ev_cv2 (box_calls label b)));;
      annotate (draw (box_calls label b) img) bs'
  end.

(** Lines 77-78 of [recv]: [self.model.predict(img,
    conf=float(self.confidence_threshold), verbose=False)] followed by
    [results[0]]. *)
Definition detect (img : Img) : M Results :=
  s ← get;
  match model s with
  | None => raise AttributeError
  | Some m =>
      let t := confidence_threshold s in
      emit (ev_predict t);;
      match predict m img t with
      | [] => raise IndexError
      | res :: _ => ret res
      end
  end.

Definition recv (frame : VideoFrame) : M VideoFrame :=
  let img := to_ndarray frame in
  s ← get;
  if negb (enable s) then ret (from_ndarray img)
  else
    _load_model_once;;
    res ← detect img;
    img' ← match boxes res with
           | Some bs =>
               if 0 <? Z.of_nat (length bs) then annotate img bs
               else ret img
           | None => ret img
           end;
    ret (from_ndarray img').

(** The control binding at the end of the script, for a processor that
    exists: [enable = bool(enable_detection)] and
    [confidence_threshold = float(conf_threshold)]. *)
Definition bind_controls (enable_detection : bool) (conf_threshold : float)
    (s : State) : State :=
  set_confidence_threshold conf_threshold (set_enable enable_detection s).

(** The states of the processor. *)
Definition Uninitialized (s : State) : Prop := model s = None.
Definition Ready (s : State) : Prop := model s <> None.

(** The life of one processor: frames arrive, and script reruns bind the
    toggle and a value of the slider. *)
Inductive reachable : State -> Prop :=
| reach_init : reachable init
| reach_recv s frame : reachable s -> reachable (recv frame s).2
| reach_bind s e v :
    reachable s -> slider_returns conf_slider v = true ->
    reachable (bind_controls e v s).

(** Lines 120-131, the end of a script run: [video_processor] is
    [webrtc_ctx.video_processor] when [webrtc_ctx] is there and has one.
    The two widget values are bound to it and the status line is shown;
    without a processor nothing is bound and a warning is shown. *)
Definition script_tail (enable_detection : bool) (conf_threshold : float)
    (video_processor : option State) : option State * Status :=
  let video_processor' :=
    match video_processor with
    | Some vp => Some (bind_controls enable_detection conf_threshold vp)
    | None => None
    end in
  let shown :=
    match video_processor with
    | Some _ => info (status_line enable_detection conf_threshold)
    | None =>
        warning
          "Click the 'Start' button in the webcam widget if it is not connected."
    end in
  (video_processor', shown).

End Processor.

(** ** A small instance of the libraries

    An array is the list of the calls drawn on it, a frame is its array,
    a model is the list of its candidate boxes and [predict] keeps those
    scored at least [conf]. *)
Module Demo.

Definition candidates : list Box :=
  [ mkBox (50, 60, 200, 220) (Some f0_83) (Some 0);
    mkBox (10, 0, 40, 30) (Some f0_25) (Some 999) ].

Definition libs : Libraries := {|
  VideoFrame := list Cv2Call;
  Img := list Cv2Call;
  Cls := unit;
  Model := list Box;
  to_ndarray f := f;
  from_ndarray i := i;
  cv2 c i := (i ++ [c])%list;
  ultralytics_YOLO := tt;
  construct _ _ := candidates;
  model_names _ := names_dict {[ 0 := "person" ]};
  predict m _ t := [ mkResults (Some (List.filter (fun b => leb t (conf_of b)) m)) ]
|}.


Definition paused : @State libs :=
  mkState None names_other f0_9 false None [].

End Demo.

(** * Properties *)

(** ** Labels, captions and anchors *)

Lemma label_of_total (nm : Names) (cls_id : Z) :
  label_of nm cls_id = inr (label_text nm cls_id).
Proof.
  unfold label_text. destruct nm as [d|l|]; simpl; try done.
  destruct ((0 <=? cls_id) && (cls_id <? Z.of_nat (length l))) eqn:Hg; [|done].
  apply andb_true_iff in Hg as [H0 H1].
  apply Z.leb_le in H0. apply Z.ltb_lt in H1.
  destruct (lookup_lt_is_Some_2 l (Z.to_nat cls_id)) as [name Hn]; [lia |].
  by rewrite Hn.
Qed.

Lemma label_text_fallback (nm : Names) (cls_id : Z) :
  lookup_fails nm cls_id -> label_text nm cls_id = str_int cls_id.
Proof.
  unfold label_text. destruct nm as [d|l|]; simpl; intros Hf; try done.
  - by rewrite Hf.
  - destruct ((0 <=? cls_id) && (cls_id <? Z.of_nat (length l))) eqn:Hg; [|done].
    apply andb_true_iff in Hg as [H0 H1].
    apply Z.leb_le in H0. apply Z.ltb_lt in H1. lia.
Qed.

Lemma prefix_append (s t : string) : String.prefix s (s +:+ t) = true.
Proof.
  induction s as [|a s IH]; simpl.
  - by destruct t.
  - destruct (ascii_dec a a); [done | congruence].
Qed.


Section ProcessorFacts.

Context `{Libraries}.

(** ** The state monad on records *)

Lemma add_log_nil (s : State) : add_log [] s = s.
Proof. destruct s; unfold add_log; simpl. by rewrite app_nil_r. Qed.

Lemma add_log_app (l1 l2 : list Event) (s : State) :
  add_log l2 (add_log l1 s) = add_log (l1 ++ l2) s.
Proof. unfold add_log; simpl. by rewrite app_assoc. Qed.

Lemma constructions_app (l1 l2 : list Event) :
  constructions (l1 ++ l2) = (constructions l1 + constructions l2)%nat.
Proof. unfold constructions. by rewrite List.filter_app, length_app. Qed.

Lemma inferences_app (l1 l2 : list Event) :
  inferences (l1 ++ l2) = (inferences l1 + inferences l2)%nat.
Proof. unfold inferences. by rewrite List.filter_app, length_app. Qed.

Lemma drawings_app (l1 l2 : list Event) :
  drawings (l1 ++ l2) = (drawings l1 + drawings l2)%nat.
Proof. unfold drawings. by rewrite List.filter_app, length_app. Qed.

Lemma constructions_cv2 (calls : list Cv2Call) :
  constructions (map ev_cv2 calls) = 0%nat.
Proof. induction calls as [|c calls IH]; [done | exact IH]. Qed.

Lemma draw_app (l1 l2 : list Cv2Call) (img : Img) :
  draw (l1 ++ l2) img = draw l2 (draw l1 img).
Proof. unfold draw. apply fold_left_app. Qed.

(** ** Lazy construction *)

Lemma load_ready (s : State) :
  Ready s -> _load_model_once s = (inr tt, s).
Proof.
  unfold Ready, _load_model_once; intros Hm.
  unfold mbind, M_bind, bind, get; simpl.
  destruct (model s); [done | congruence].
Qed.

Lemma load_uninitialized (s : State) :
  Uninitialized s ->
  exists c evs,
    _load_model_once s =
      (inr tt,
       mkState (Some (construct c "yolov8n.pt"))
         (model_names (construct c "yolov8n.pt"))
         (confidence_threshold s) (enable s) (Some c) (log s ++ evs)) /\
    constructions evs = 1%nat /\ inferences evs = 0%nat /\
    drawings evs = 0%nat.
Proof.
  unfold Uninitialized; intros Hm.
  destruct s as [m nm t e y l]; simpl in Hm; subst m.
  destruct y as [c|].
  - exists c, [ev_construct "yolov8n.pt"]. done.
  - exists ultralytics_YOLO, [ev_import; ev_construct "yolov8n.pt"].
    split; [|done].
    unfold _load_model_once, get_yolo_class, mbind, M_bind, bind, get, emit,
      modify, mret, M_ret, ret, set_names, set_model, set_YOLO, add_log; simpl.
    by rewrite <- app_assoc.
Qed.

Lemma load_returns (s : State) : (_load_model_once s).1 = inr tt.
Proof.
  destruct (model s) as [m|] eqn:Hm.
  - rewrite load_ready; [done | unfold Ready; congruence].
  - destruct (load_uninitialized s Hm) as (c & evs & -> & _); done.
Qed.

Lemma load_makes_ready (s : State) : Ready (_load_model_once s).2.
Proof.
  destruct (model s) as [m|] eqn:Hm.
  - rewrite load_ready; unfold Ready; simpl; congruence.
  - destruct (load_uninitialized s Hm) as (c & evs & -> & _). by unfold Ready.
Qed.

Lemma load_keeps_controls (s : State) :
  confidence_threshold (_load_model_once s).2 = confidence_threshold s /\
  enable (_load_model_once s).2 = enable s.
Proof.
  destruct (model s) as [m|] eqn:Hm.
  - rewrite load_ready; [done | unfold Ready; congruence].
  - destruct (load_uninitialized s Hm) as (c & evs & -> & _); done.
Qed.

Lemma load_counts (s : State) :
  constructions (log (_load_model_once s).2) =
    (constructions (log s) + match model s with Some _ => 0 | None => 1 end)%nat /\
  inferences (log (_load_model_once s).2) = inferences (log s) /\
  drawings (log (_load_model_once s).2) = drawings (log s).
Proof.
  destruct (model s) as [m|] eqn:Hm.
  - rewrite load_ready; [simpl; lia | unfold Ready; congruence].
  - destruct (load_uninitialized s Hm) as (c & evs & -> & Hc & Hi & Hd); simpl.
    rewrite constructions_app, inferences_app, drawings_app. lia.
Qed.

(** ** The loop and the callback *)

Lemma annotate_spec (bs : list Box) (img : Img) (s : State) :
  annotate img bs s =
    (inr (draw (draw_calls (names s) bs) img),
     add_log (map ev_cv2 (draw_calls (names s) bs)) s).
Proof.
  revert img s; induction bs as [|b bs IH]; intros img s; simpl.
  - unfold mret, M_ret, ret, draw_calls; simpl. by rewrite add_log_nil.
  - unfold mbind, M_bind, bind, get, modify, lift; simpl.
    rewrite label_of_total, IH; simpl.
    by rewrite add_log_app, draw_app, map_app.
Qed.

Lemma recv_paused (frame : VideoFrame) (s : State) :
  enable s = false ->
  recv frame s = (inr (from_ndarray (to_ndarray frame)), s).
Proof.
  intros He. unfold recv, mbind, M_bind, bind, get; simpl. by rewrite He.
Qed.

Lemma detect_ready (img : Img) (s : State) m res rest :
  model s = Some m ->
  predict m img (confidence_threshold s) = res :: rest ->
  detect img s = (inr res, add_log [ev_predict (confidence_threshold s)] s).
Proof.
  intros Hm Hp. unfold detect, mbind, M_bind, bind, get, emit, modify; simpl.
  by rewrite Hm, Hp.
Qed.

Lemma recv_enabled (frame : VideoFrame) (s : State) m res rest :
  enable s = true ->
  model (_load_model_once s).2 = Some m ->
  predict m (to_ndarray frame) (confidence_threshold s) = res :: rest ->
  recv frame s =
    (inr (from_ndarray
            (draw (draw_calls (names (_load_model_once s).2) (detections res))
               (to_ndarray frame))),
     add_log
       (ev_predict (confidence_threshold s)
          :: map ev_cv2
               (draw_calls (names (_load_model_once s).2) (detections res)))
       (_load_model_once s).2).
Proof.
  intros He Hm Hp.
  pose proof (load_returns s) as Hr.
  pose proof (load_keeps_controls s) as [Ht _].
  unfold recv, mbind, M_bind, bind, get; simpl. rewrite He; simpl.
  destruct (_load_model_once s) as [r s1]; simpl in *; subst r.
  rewrite <- Ht in Hp.
  rewrite (detect_ready _ _ _ _ _ Hm Hp), Ht; simpl.
  unfold detections. destruct (boxes res) as [bs|]; simpl.
  - destruct bs as [|b bs]; [done|].
    replace (0 <? Z.of_nat (length (b :: bs))) with true
      by (symmetry; apply Z.ltb_lt; simpl; lia).
    rewrite annotate_spec; simpl. by rewrite add_log_app.
  - done.
Qed.

Lemma recv_enabled_state (frame : VideoFrame) (s : State) :
  enable s = true ->
  exists evs,
    (recv frame s).2 = add_log evs (_load_model_once s).2 /\
    constructions evs = 0%nat.
Proof.
  intros He.
  destruct (model (_load_model_once s).2) as [m|] eqn:Hm;
    [| by destruct (load_makes_ready s)].
  destruct (predict m (to_ndarray frame) (confidence_threshold s))
    as [|res rest] eqn:Hp.
  - exists [ev_predict (confidence_threshold s)]. split; [|done].
    pose proof (load_returns s) as Hr.
    pose proof (load_keeps_controls s) as [Ht _].
    unfold recv, mbind, M_bind, bind, get; simpl. rewrite He; simpl.
    destruct (_load_model_once s) as [r s1]; simpl in *; subst r.
    unfold detect, mbind, M_bind, bind, get, emit, modify; simpl.
    by rewrite Hm, Ht, Hp.
  - rewrite (recv_enabled _ _ _ _ _ He Hm Hp); simpl.
    eexists; split; [done|].
    change (ev_predict ?t :: ?l) with ([ev_predict t] ++ l)%list.
    by rewrite constructions_app, constructions_cv2.
Qed.

Lemma recv_model (frame : VideoFrame) (s : State) :
  model (recv frame s).2 =
    if enable s then model (_load_model_once s).2 else model s.
Proof.
  destruct (enable s) eqn:He.
  - by destruct (recv_enabled_state frame s He) as (evs & -> & _).
  - by rewrite recv_paused.
Qed.

Lemma recv_constructions (frame : VideoFrame) (s : State) :
  constructions (log (recv frame s).2) =
    (constructions (log s) +
       match model s with
       | Some _ => 0
       | None => if enable s then 1 else 0
       end)%nat.
Proof.
  destruct (enable s) eqn:He.
  - destruct (recv_enabled_state frame s He) as (evs & -> & Hc); simpl.
    rewrite constructions_app, Hc.
    destruct (load_counts s) as [-> _]. destruct (model s); lia.
  - rewrite recv_paused by done. simpl. destruct (model s); lia.
Qed.

Lemma recv_keeps_threshold (frame : VideoFrame) (s : State) :
  confidence_threshold (recv frame s).2 = confidence_threshold s.
Proof.
  destruct (enable s) eqn:He.
  - destruct (recv_enabled_state frame s He) as (evs & -> & _); simpl.
    apply load_keeps_controls.
  - by rewrite recv_paused.
Qed.

(** ** The claims about the callback *)

(** C1: while the enabled flag is false, the callback returns the frame
    built from its decoded input with nothing drawn on it, leaves the
    processor as it was (no model constructed, no inference call added
    to the log), and this for any value of the threshold. *)
Theorem recv_paused_identity (frame : VideoFrame) (s : State) :
  enable s = false ->
  recv frame s = (inr (from_ndarray (to_ndarray frame)), s) /\
  inferences (log (recv frame s).2) = inferences (log s) /\
  constructions (log (recv frame s).2) = constructions (log s) /\
  model (recv frame s).2 = model s /\
  forall t : float,
    recv frame (set_confidence_threshold t s) =
      (inr (from_ndarray (to_ndarray frame)), set_confidence_threshold t s).
Proof.
  intros He. rewrite recv_paused by done. repeat split.
  intros t. by apply recv_paused.
Qed.

(** C3: loading returns with a model in place, loading again changes
    nothing, and the two calls together construct one model when there
    was none and no model when there was one; a frame arriving at an
    enabled processor without a model constructs exactly one, a frame
    arriving at a paused one constructs none; once a model is in place
    neither a frame nor a rerun of the script replaces or removes it;
    over the whole life of a processor the number of constructed models
    is one if it has a model and zero otherwise. *)
Theorem load_model_exactly_once :
  (forall s : State,
     let s1 := (_load_model_once s).2 in
     _load_model_once s = (inr tt, s1) /\ Ready s1 /\
     _load_model_once s1 = (inr tt, s1) /\
     constructions (log s1) =
       (constructions (log s) +
          match model s with Some _ => 0 | None => 1 end)%nat) /\
  (forall (s : State) frame,
     Uninitialized s -> enable s = true ->
     Ready (recv frame s).2 /\
     constructions (log (recv frame s).2) = S (constructions (log s))) /\
  (forall (s : State) frame,
     Uninitialized s -> enable s = false -> (recv frame s).2 = s) /\
  (forall (s : State) frame,
     Ready s ->
     model (recv frame s).2 = model s /\
     constructions (log (recv frame s).2) = constructions (log s)) /\
  (forall (s : State) e v,
     model (bind_controls e v s) = model s /\
     log (bind_controls e v s) = log s) /\
  (forall s : State,
     reachable s ->
     constructions (log s) = match model s with Some _ => 1 | None => 0 end)%nat.
Proof.
  repeat apply conj.
  - intros s s1.
    pose proof (load_returns s) as Hr.
    pose proof (load_makes_ready s) as Hy.
    destruct (load_counts s) as [Hc _]. fold s1 in Hr, Hy, Hc.
    repeat split; try done.
    + unfold s1 in *. destruct (_load_model_once s); simpl in *. by subst.
    + by apply load_ready.
  - intros s frame Hu He. split.
    + unfold Ready. rewrite recv_model, He. apply load_makes_ready.
    + rewrite recv_constructions, Hu, He. lia.
  - intros s frame Hu He. by rewrite recv_paused.
  - intros s frame Hy. split.
    + rewrite recv_model. destruct (enable s); [|done].
      by rewrite load_ready.
    + rewrite recv_constructions. unfold Ready in Hy.
      destruct (model s); [lia | done].
  - done.
  - intros s Hs. induction Hs as [|s frame Hs IH|s e v Hs IH Hv].
    + done.
    + rewrite recv_constructions, recv_model, IH.
      destruct (model s) as [m|] eqn:Hm.
      * destruct (enable s); [|done].
        rewrite load_ready by (unfold Ready; congruence).
        simpl. by rewrite Hm.
      * destruct (enable s); [|done].
        pose proof (load_makes_ready s) as Hy. unfold Ready in Hy.
        destruct (model (_load_model_once s).2); [done | congruence].
    + exact IH.
Qed.

(** C7: the loop over no box leaves the array as it is, and a callback
    whose result holds no detection ([boxes] is [None] or empty) returns
    the frame of its decoded input and adds no drawing call. *)
Theorem no_detections_frame_unchanged (frame : VideoFrame) (s : State) m res rest :
  enable s = true ->
  model (_load_model_once s).2 = Some m ->
  predict m (to_ndarray frame) (confidence_threshold s) = res :: rest ->
  detections res = [] ->
  (forall (img : Img) (s' : State), annotate img [] s' = (inr img, s')) /\
  (recv frame s).1 = inr (from_ndarray (to_ndarray frame)) /\
  drawings (log (recv frame s).2) = drawings (log s).
Proof.
  intros He Hm Hp Hnil. split; [done|].
  rewrite (recv_enabled _ _ _ _ _ He Hm Hp), Hnil; simpl. split; [done|].
  rewrite drawings_app. destruct (load_counts s) as (_ & _ & ->).
  unfold drawings at 2; simpl. lia.
Qed.

(** C9: the processor starts at 0.25, and in every state it can reach
    its threshold lies between 0.1 and 0.9, the two ends of the slider
    (step 0.05, default 0.25) whose value is the only thing ever
    written to it. *)
Theorem threshold_within_slider_range (s : State) :
  reachable s ->
  confidence_threshold init = value conf_slider /\
  conf_slider = mkSlider f0_1 f0_9 f0_25 f0_05 /\
  leb f0_1 (confidence_threshold s) = true /\
  leb (confidence_threshold s) f0_9 = true.
Proof.
  intros Hs. do 2 (split; [done|]).
  induction Hs as [|s frame Hs IH|s e v Hs IH Hv].
  - done.
  - by rewrite recv_keeps_threshold.
  - simpl. by apply andb_true_iff in Hv.
Qed.

End ProcessorFacts.

(** ** The claims about labels and anchors *)

(** C5, as the code has it: the caption is anchored at the left edge of
    the box as it is and at [max(0, y1 - 8)]; the vertical coordinate is
    never negative, the horizontal one is not clamped and is
    non-negative exactly when the left edge is. *)
Theorem text_anchor_only_y_clamped (label : string) (x1 y1 x2 y2 : Z)
    (c : option float) (k : option Z) :
  box_calls label (mkBox (x1, y1, x2, y2) c k) =
    [ rectangle (x1, y1) (x2, y2) color 2;
      putText (caption_of label (conf_of (mkBox (x1, y1, x2, y2) c k)))
        (text_org x1 y1) FONT_HERSHEY_SIMPLEX f0_6 color 2 LINE_AA ] /\
  (text_org x1 y1).1 = x1 /\
  0 <= (text_org x1 y1).2 /\
  (0 <= (text_org x1 y1).1 <-> 0 <= x1).
Proof.
  repeat split; simpl; lia.
Qed.

(** C5, as stated, fails: a box whose left edge is at -5 has its
    caption anchored at x = -5. *)
Lemma text_anchor_x_not_clamped :
  box_calls "person" (mkBox (-5, 60, 200, 220) (Some f0_83) (Some 0)) =
    [ rectangle (-5, 60) (200, 220) color 2;
      putText "person 83%" (-5, 52) FONT_HERSHEY_SIMPLEX f0_6 color 2 LINE_AA ] /\
  ~ (0 <= (text_org (-5) 60).1 /\ 0 <= (text_org (-5) 60).2).
Proof.
  split; [reflexivity|]. simpl. lia.
Qed.



(** C10, as the code has it: a box without confidence is captioned with
    0.0, printed "0%"; a box without class gets the id -1, whose label
    is what the mapping holds for -1 if it is a mapping that has it and
    "-1" otherwise; neither case raises. *)
Theorem absent_fields_defaults (nm : Names) (xy : Z * Z * Z * Z)
    (c : option float) (k : option Z) (label : string) :
  conf_of (mkBox xy None k) = f0_0 /\
  caption_of label (conf_of (mkBox xy None k)) = label +:+ " 0%" /\
  cls_id_of (mkBox xy c None) = -1 /\
  label_of nm (cls_id_of (mkBox xy c None)) =
    inr match nm with
        | names_dict d => default "-1" (d !! (-1))
        | _ => "-1"
        end /\
  (lookup_fails nm (-1) -> label_of nm (cls_id_of (mkBox xy c None)) = inr "-1").
Proof.
  repeat split.
  - by destruct nm.
  - intros Hf. change (cls_id_of (mkBox xy c None)) with (-1).
    by rewrite label_of_total, (label_text_fallback nm (-1) Hf).
Qed.

(** C10, as stated, fails: with a mapping that has an entry for -1, a
    box without class is labelled by that entry and not by "-1". *)
Lemma absent_class_label_from_map :
  let b := mkBox (50, 60, 200, 220) None None in
  let nm := names_dict {[ -1 := "background" ]} in
  cls_id_of b = -1 /\
  label_of nm (cls_id_of b) = inr "background" /\
  label_of nm (cls_id_of b) <> inr "-1" /\
  box_calls (label_text nm (cls_id_of b)) b =
    [ rectangle (50, 60) (200, 220) color 2;
      putText "background 0%" (50, 52) FONT_HERSHEY_SIMPLEX f0_6 color 2 LINE_AA ].
Proof.
  repeat split. vm_compute. discriminate.
Qed.

(** ** Floats: the product by 100 and its printing *)

(** The literals are canonical doubles. *)
Lemma literals_valid :
  forallb valid
    [f0_0; f1_0; f100; f0_1; f0_9; f0_25; f0_05; f0_6; f0_83; f0_83_single]
  = true.
Proof. reflexivity. Qed.

Lemma digits2_pos_bounds (p : positive) :
  2 ^ (Z.pos (digits2_pos p) - 1) <= Z.pos p < 2 ^ Z.pos (digits2_pos p).
Proof.
  induction p as [p IH|p IH|]; simpl digits2_pos.
  - rewrite Pos2Z.inj_succ, Z.pow_succ_r by lia.
    replace (Z.succ (Z.pos (digits2_pos p)) - 1)
      with (Z.succ (Z.pos (digits2_pos p) - 1)) by lia.
    rewrite Z.pow_succ_r by lia. lia.
  - rewrite Pos2Z.inj_succ, Z.pow_succ_r by lia.
    replace (Z.succ (Z.pos (digits2_pos p)) - 1)
      with (Z.succ (Z.pos (digits2_pos p) - 1)) by lia.
    rewrite Z.pow_succ_r by lia. lia.
  - simpl. lia.
Qed.

Lemma Zdigits2_le (m k : Z) : 0 <= m < 2 ^ k -> 0 <= k -> 0 <= Zdigits2 m <= k.
Proof.
  intros [H0 Hm] Hk. destruct m as [|p|p]; simpl; [lia | | lia].
  destruct (digits2_pos_bounds p) as [Hl _]. split; [lia|].
  destruct (Z_lt_le_dec k (Z.pos (digits2_pos p))) as [Hlt|]; [|lia].
  assert (2 ^ k <= 2 ^ (Z.pos (digits2_pos p) - 1))
    by (apply Z.pow_le_mono_r; lia).
  lia.
Qed.

Lemma shr_1_bounds (mrs : shr_record) :
  0 <= shr_m mrs -> 0 <= shr_m (shr_1 mrs) <= shr_m mrs.
Proof.
  destruct mrs as [m r s]; simpl. intros Hm.
  destruct m as [|[p|p|]|p]; simpl; lia.
Qed.

Lemma iter_shr_1_bounds (p : positive) (mrs : shr_record) :
  0 <= shr_m mrs -> 0 <= shr_m (SpecFloat.iter_pos shr_1 p mrs) <= shr_m mrs.
Proof.
  revert mrs. induction p as [p IH|p IH|]; intros mrs Hm; simpl.
  - pose proof (shr_1_bounds mrs Hm) as H1.
    pose proof (IH (shr_1 mrs) ltac:(lia)) as H2.
    pose proof (IH (SpecFloat.iter_pos shr_1 p (shr_1 mrs)) ltac:(lia)) as H3. lia.
  - pose proof (IH mrs Hm) as H2.
    pose proof (IH (SpecFloat.iter_pos shr_1 p mrs) ltac:(lia)) as H3. lia.
  - by apply shr_1_bounds.
Qed.

Lemma shr_fexp_bounds (m e : Z) (l : location) :
  0 <= m ->
  0 <= shr_m (shr_fexp prec emax m e l).1 <= m /\
  (shr_fexp prec emax m e l).2 = Z.max e (fexp prec emax (Zdigits2 m + e)).
Proof.
  intros Hm. unfold shr_fexp, shr.
  assert (Hr : shr_m (shr_record_of_loc m l) = m) by (by destruct l as [|[]]).
  destruct (fexp prec emax (Zdigits2 m + e) - e) as [|p|p] eqn:Hd; simpl.
  - rewrite Hr. lia.
  - pose proof (iter_shr_1_bounds p (shr_record_of_loc m l)) as Hb.
    rewrite Hr in Hb. lia.
  - rewrite Hr. lia.
Qed.

Lemma round_nearest_even_bounds (m : Z) (l : location) :
  m <= round_nearest_even m l <= m + 1.
Proof.
  destruct l as [|[]]; simpl; try lia. destruct (Z.even m); lia.
Qed.


Lemma in_unit_interval_inv (c : float) :
  in_unit_interval c = true ->
  c = S754_zero false \/
  exists m e, c = S754_finite false m e /\ Z.pos m < 2 ^ 53 /\ e <= -52.
Proof.
  unfold in_unit_interval, valid, leb. intros H.
  apply andb_true_iff in H as [H Hle]. apply andb_true_iff in H as [Hv Hs].
  destruct c as [s|s| |s m e].
  - destruct s; [done | by left].
  - by destruct s.
  - done.
  - right. destruct s; [done|]. exists m, e. split; [done|].
    simpl in Hv. unfold bounded, canonical_mantissa in Hv.
    apply andb_true_iff in Hv as [Hcan _]. apply Z.eqb_eq in Hcan.
    unfold fexp, SpecFloat.emin, prec, emax in Hcan.
    destruct (digits2_pos_bounds m) as [_ Hu].
    assert (2 ^ Z.pos (digits2_pos m) <= 2 ^ 53)
      by (apply Z.pow_le_mono_r; lia).
    split; [lia|].
    unfold SFleb, SFcompare, f1_0 in Hle.
    destruct (e ?= -52) eqn:Hc; [| |done].
    + apply Z.compare_eq in Hc. by subst e.
    + change (e < -52) in Hc. clear -Hc. lia.
Qed.


Lemma round_half_even_scaled (m k : positive) :
  2 * Z.abs (round_half_even m (Z.neg k) * Z.pow_pos 2 k - Z.pos m)
    <= Z.pow_pos 2 k.
Proof.
  unfold round_half_even.
  assert (Hd : 0 < Z.pow_pos 2 k)
    by (change (Z.pow_pos 2 k) with (2 ^ Z.pos k); apply Z.pow_pos_nonneg; lia).
  set (d := Z.pow_pos 2 k) in *. clearbody d.
  pose proof (Z.div_mod (Z.pos m) d ltac:(lia)) as Hdm.
  pose proof (Z.mod_pos_bound (Z.pos m) d Hd) as Hr.
  set (q := Z.pos m / d) in *. set (r := Z.pos m mod d) in *.
  clearbody q r.
  destruct (2 * r ?= d) eqn:Hc.
  - apply Z.compare_eq in Hc. destruct (Z.even q); nia.
  - change (2 * r < d) in Hc. nia.
  - change (2 * r > d) in Hc. nia.
Qed.

Lemma nearest_scaled (n j m d : Z) :
  0 < d -> 2 * Z.abs (n * d - m) <= d ->
  Z.abs (n * d - m) <= Z.abs (j * d - m).
Proof.
  intros Hd Hn.
  destruct (Z.lt_trichotomy j n) as [Hlt|[->|Hgt]]; [|lia|].
  - assert (j * d <= n * d - d) by nia. lia.
  - assert (n * d + d <= j * d) by nia. lia.
Qed.

Lemma pow2_neg_Q (m k : positive) :
  (inject_Z (Z.pos m) * 2 ^ Z.neg k == Z.pos m # (2 ^ k)%positive)%Q.
Proof.
  rewrite (Qmake_Qdiv (Z.pos m) (2 ^ k)), Pos2Z.inj_pow.
  change (Z.neg k) with (- Z.pos k).
  rewrite Qpower_opp, Zpower_Qpower by lia. reflexivity.
Qed.

Lemma round_half_even_nearest (m : positive) (e : Z) :
  nearest_integer (inject_Z (Z.pos m) * 2 ^ e)%Q (round_half_even m e).
Proof.
  intros j. destruct e as [|k|k].
  - assert (Hq : (inject_Z (round_half_even m 0)
                  - inject_Z (Z.pos m) * 2 ^ 0 == 0)%Q).
    { unfold round_half_even. simpl. unfold Qeq; simpl. lia. }
    rewrite Hq. apply Qabs_nonneg.
  - assert (Hq : (inject_Z (round_half_even m (Z.pos k))
                  - inject_Z (Z.pos m) * 2 ^ Z.pos k == 0)%Q).
    { unfold round_half_even.
      rewrite inject_Z_mult, Zpower_Qpower by lia. apply Qplus_opp_r. }
    rewrite Hq. apply Qabs_nonneg.
  - rewrite pow2_neg_Q.
    pose proof (round_half_even_scaled m k) as Hs.
    change (Z.pow_pos 2 k) with (2 ^ Z.pos k) in Hs.
    rewrite <- Pos2Z.inj_pow in Hs.
    set (n := round_half_even m (Z.neg k)) in *. clearbody n.
    set (p := (2 ^ k)%positive) in *. clearbody p.
    pose proof (nearest_scaled n j (Z.pos m) (Z.pos p) ltac:(lia) Hs) as Hn.
    unfold Qle, Qabs, Qminus, Qplus, Qopp, inject_Z; simpl.
    rewrite !Z.mul_1_r.
    replace (n * Z.pos p + Z.neg m) with (n * Z.pos p - Z.pos m) by lia.
    replace (j * Z.pos p + Z.neg m) with (j * Z.pos p - Z.pos m) by lia.
    apply Z.mul_le_mono_nonneg_r; lia.
Qed.

Lemma nearest_integer_wd (q q' : Q) (n : Z) :
  (q == q')%Q -> nearest_integer q n -> nearest_integer q' n.
Proof. intros Hq Hn k. rewrite <- Hq. apply Hn. Qed.









(** ** The claims at work on the small instance *)

(** A frame that already shows one stroke. *)
Lemma recv_paused_identity_witness :
  let frame := [rectangle (1, 1) (2, 2) color 2] in
  enable Demo.paused = false /\
  @recv Demo.libs frame Demo.paused = (inr frame, Demo.paused).
Proof.
  intros frame. split; [reflexivity|].
  exact (proj1 (@recv_paused_identity Demo.libs frame Demo.paused eq_refl)).
Defined.

Lemma load_model_exactly_once_witness :
  @reachable Demo.libs (@recv Demo.libs [] (@recv Demo.libs [] init).2).2 /\
  constructions (log (@recv Demo.libs [] (@recv Demo.libs [] init).2).2) = 1%nat.
Proof.
  assert (Hr : @reachable Demo.libs
                 (@recv Demo.libs [] (@recv Demo.libs [] init).2).2)
    by (do 2 apply reach_recv; apply reach_init).
  split; [exact Hr|].
  destruct (@load_model_exactly_once Demo.libs) as (_ & _ & _ & _ & _ & Hall).
  rewrite (Hall _ Hr). reflexivity.
Defined.



Lemma no_detections_frame_unchanged_witness :
  let s := @bind_controls Demo.libs true f0_9 init in
  enable s = true /\
  @predict Demo.libs Demo.candidates [] (confidence_threshold s) =
    [mkResults (Some [])] /\
  (@recv Demo.libs [] s).1 = inr [].
Proof.
  intros s. split; [reflexivity|]. split; [reflexivity|].
  exact (proj1 (proj2
    (@no_detections_frame_unchanged Demo.libs [] s Demo.candidates
       (mkResults (Some [])) [] eq_refl eq_refl eq_refl eq_refl))).
Defined.


Lemma threshold_within_slider_range_witness :
  let s := @bind_controls Demo.libs false f0_9 (@recv Demo.libs [] init).2 in
  @reachable Demo.libs s /\
  leb f0_1 (confidence_threshold s) = true /\
  leb (confidence_threshold s) f0_9 = true.
Proof.
  intros s.
  assert (Hr : @reachable Demo.libs s)
    by (apply reach_bind; [apply reach_recv, reach_init | reflexivity]).
  split; [exact Hr|].
  exact (proj2 (proj2 (@threshold_within_slider_range Demo.libs s Hr))).
Defined.

(** * Further properties of the code *)

Section ProcessorMore.

Context `{Libraries}.

(** ** The lazy import *)

(** X1: the first call of [get_yolo_class] imports the class and keeps
    it in the global, every later call returns the kept class without
    importing again and changes nothing. *)
Theorem get_yolo_class_imports_once (s : State) :
  exists c,
    get_yolo_class s = (inr c, (get_yolo_class s).2) /\
    YOLO (get_yolo_class s).2 = Some c /\
    get_yolo_class (get_yolo_class s).2 = (inr c, (get_yolo_class s).2) /\
    imports (log (get_yolo_class s).2) =
      (imports (log s) + match YOLO s with Some _ => 0 | None => 1 end)%nat /\
    (forall c', YOLO s = Some c' -> get_yolo_class s = (inr c', s)).
Proof.
  destruct s as [m nm t e y l].
  unfold get_yolo_class, mbind, M_bind, bind, get, emit, modify, mret, M_ret,
    ret, set_YOLO, add_log; simpl.
  destruct y as [c|]; simpl.
  - exists c. repeat apply conj; try done.
    intros c' Hc. by injection Hc as <-.
  - exists ultralytics_YOLO. repeat apply conj; try done.
    unfold imports. rewrite List.filter_app, length_app; simpl. lia.
Qed.

(** ** Helpers: the calls of one load and of one frame *)

Lemma load_fresh (s : State) :
  model s = None -> YOLO s = None ->
  _load_model_once s =
    (inr tt,
     mkState (Some (construct ultralytics_YOLO "yolov8n.pt"))
       (model_names (construct ultralytics_YOLO "yolov8n.pt"))
       (confidence_threshold s) (enable s) (Some ultralytics_YOLO)
       (log s ++ [ev_import; ev_construct "yolov8n.pt"])).
Proof.
  destruct s as [m nm t e y l]; simpl. intros -> ->.
  unfold _load_model_once, get_yolo_class, mbind, M_bind, bind, get, emit,
    modify, mret, M_ret, ret, set_names, set_model, set_YOLO, add_log; simpl.
  by rewrite <- app_assoc.
Qed.

Lemma load_log (s : State) :
  exists evs,
    log (_load_model_once s).2 = (log s ++ evs)%list /\
    Forall (fun ev => is_import ev || is_construct ev = true) evs.
Proof.
  destruct (model s) as [m|] eqn:Hm.
  - exists []. rewrite load_ready by (unfold Ready; congruence).
    simpl. by rewrite app_nil_r.
  - destruct s as [m nm t e y l]; simpl in Hm; subst m.
    destruct y as [c|].
    + exists [ev_construct "yolov8n.pt"]. split; [done|].
      by repeat constructor.
    + exists [ev_import; ev_construct "yolov8n.pt"].
      rewrite load_fresh by done. split; [done|]. by repeat constructor.
Qed.

Lemma load_keeps_names (s : State) :
  Ready s -> names (_load_model_once s).2 = names s.
Proof. intros Hs. by rewrite load_ready. Qed.

Lemma recv_enabled_empty (frame : VideoFrame) (s : State) m :
  enable s = true ->
  model (_load_model_once s).2 = Some m ->
  predict m (to_ndarray frame) (confidence_threshold s) = [] ->
  recv frame s =
    (inl IndexError,
     add_log [ev_predict (confidence_threshold s)] (_load_model_once s).2).
Proof.
  intros He Hm Hp.
  pose proof (load_returns s) as Hr.
  pose proof (load_keeps_controls s) as [Ht _].
  unfold recv, mbind, M_bind, bind, get; simpl. rewrite He; simpl.
  destruct (_load_model_once s) as [r s1]; simpl in *; subst r.
  unfold detect, mbind, M_bind, bind, get, emit, modify; simpl.
  by rewrite Hm, Ht, Hp.
Qed.

Lemma recv_enabled_events (frame : VideoFrame) (s : State) :
  enable s = true ->
  exists calls,
    (recv frame s).2 =
      add_log (ev_predict (confidence_threshold s) :: map ev_cv2 calls)
        (_load_model_once s).2.
Proof.
  intros He.
  destruct (model (_load_model_once s).2) as [m|] eqn:Hm;
    [| by destruct (load_makes_ready s)].
  destruct (predict m (to_ndarray frame) (confidence_threshold s))
    as [|res rest] eqn:Hp.
  - exists []. by rewrite (recv_enabled_empty _ _ _ He Hm Hp).
  - eexists. by rewrite (recv_enabled _ _ _ _ _ He Hm Hp).
Qed.

Lemma draw_calls_length (nm : Names) (bs : list Box) :
  length (draw_calls nm bs) = (2 * length bs)%nat.
Proof.
  induction bs as [|b bs IH]; [done|].
  unfold draw_calls in *; simpl. rewrite length_app, IH.
  unfold box_calls. destruct (xyxy b) as [[[? ?] ?] ?]. simpl. lia.
Qed.

Lemma draw_calls_rectangles (nm : Names) (bs : list Box) :
  rectangles (draw_calls nm bs) = map xyxy bs.
Proof.
  induction bs as [|b bs IH]; [done|].
  unfold draw_calls, rectangles in *; simpl.
  rewrite flat_map_app, IH.
  unfold box_calls. by destruct (xyxy b) as [[[? ?] ?] ?].
Qed.

Lemma draw_calls_captions (nm : Names) (bs : list Box) :
  captions (draw_calls nm bs) =
    map (fun b =>
           (caption_of (label_text nm (cls_id_of b)) (conf_of b),
            let '(x1, y1, _, _) := xyxy b in text_org x1 y1))
      bs.
Proof.
  induction bs as [|b bs IH]; [done|].
  unfold draw_calls, captions in *; simpl.
  rewrite flat_map_app, IH.
  unfold box_calls. by destruct (xyxy b) as [[[? ?] ?] ?].
Qed.

Lemma inferences_cv2 (calls : list Cv2Call) :
  inferences (map ev_cv2 calls) = 0%nat.
Proof. induction calls as [|c calls IH]; [done | exact IH]. Qed.

Lemma drawings_cv2 (calls : list Cv2Call) :
  drawings (map ev_cv2 calls) = length calls.
Proof.
  induction calls as [|c calls IH]; [done|].
  unfold drawings in *; simpl. by rewrite IH.
Qed.

(** ** The order of the calls *)

(** X2: over the life of a processor, as long as it has no model no
    library was called and the Label Map is unset; once it has one, the
    model is the one built from the imported class with the weights
    "yolov8n.pt", the Label Map is that model's, and the calls made are
    one import, then one construction, then only inference and drawing
    calls. *)
Theorem reachable_calls_in_order (s : State) :
  reachable s ->
  match model s with
  | None => log s = [] /\ YOLO s = None /\ names s = names_other
  | Some m =>
      m = construct ultralytics_YOLO "yolov8n.pt" /\
      YOLO s = Some ultralytics_YOLO /\
      names s = model_names m /\
      exists rest,
        log s = ev_import :: ev_construct "yolov8n.pt" :: rest /\
        Forall (fun ev => is_predict ev || is_cv2 ev = true) rest
  end.
Proof.
  intros Hs. induction Hs as [|s frame Hs IH|s e v Hs IH Hv].
  - done.
  - destruct (enable s) eqn:He; [|by rewrite recv_paused].
    destruct (recv_enabled_events frame s He) as [calls ->].
    assert (Hcalls : Forall (fun ev => is_predict ev || is_cv2 ev = true)
                       (ev_predict (confidence_threshold s) :: map ev_cv2 calls)).
    { constructor; [done|]. apply Forall_forall. intros ev Hev.
      apply list_elem_of_In, in_map_iff in Hev as (c & <- & _). done. }
    destruct (model s) as [m|] eqn:Hm.
    + rewrite load_ready by (unfold Ready; congruence). simpl. rewrite Hm.
      destruct IH as (-> & Hy & Hn & rest & Hl & Hrest).
      repeat apply conj; try done.
      exists (rest ++ ev_predict (confidence_threshold s) :: map ev_cv2 calls)%list.
      split; [by rewrite Hl | by apply Forall_app].
    + destruct IH as (Hl & Hy & Hn).
      rewrite load_fresh by done. simpl. rewrite Hl. simpl.
      repeat apply conj; try done. by eexists.
  - exact IH.
Qed.

(** ** Exceptions of the callback *)

(** X3: the callback never fails on a missing model; it raises
    [IndexError] exactly when it is enabled and [predict] returns an
    empty list, and then the model is in place, the inference call was
    made and nothing was drawn. *)
Theorem recv_raises_only_index_error (frame : VideoFrame) (s : State) :
  (recv frame s).1 <> inl AttributeError /\
  ((recv frame s).1 = inl IndexError <->
   enable s = true /\
   exists m,
     model (_load_model_once s).2 = Some m /\
     predict m (to_ndarray frame) (confidence_threshold s) = []) /\
  ((recv frame s).1 = inl IndexError ->
   Ready (recv frame s).2 /\
   inferences (log (recv frame s).2) = S (inferences (log s)) /\
   drawings (log (recv frame s).2) = drawings (log s)).
Proof.
  destruct (enable s) eqn:He.
  - destruct (model (_load_model_once s).2) as [m|] eqn:Hm;
      [| by destruct (load_makes_ready s)].
    destruct (load_counts s) as (_ & Hi & Hd).
    destruct (predict m (to_ndarray frame) (confidence_threshold s))
      as [|res rest] eqn:Hp.
    + rewrite (recv_enabled_empty _ _ _ He Hm Hp). simpl.
      repeat apply conj; try done.
      * intros _. split; [done|]. by exists m.
      * intros _. repeat apply conj.
        -- unfold Ready. simpl. by rewrite Hm.
        -- rewrite inferences_app, Hi. unfold inferences at 2. simpl. lia.
        -- rewrite drawings_app, Hd. unfold drawings at 2. simpl. lia.
    + rewrite (recv_enabled _ _ _ _ _ He Hm Hp). simpl.
      repeat apply conj; try done.
      intros (_ & m' & Hm' & Hp'). congruence.
  - rewrite recv_paused by done. simpl.
    repeat apply conj; try done. by intros [? _].
Qed.

(** ** What one frame adds *)

(** X4: an enabled callback that gets a result makes one inference call
    with the processor's threshold and then two drawing calls per
    detection; the rectangles are the boxes of the result in its order,
    and the captions are those of the same boxes, each anchored at its
    box's [text_org]. *)
Theorem recv_enabled_calls (frame : VideoFrame) (s : State) m res rest :
  enable s = true ->
  model (_load_model_once s).2 = Some m ->
  predict m (to_ndarray frame) (confidence_threshold s) = res :: rest ->
  exists calls,
    log (recv frame s).2 =
      (log (_load_model_once s).2
         ++ ev_predict (confidence_threshold s) :: map ev_cv2 calls)%list /\
    (recv frame s).1 = inr (from_ndarray (draw calls (to_ndarray frame))) /\
    inferences (log (recv frame s).2) = S (inferences (log s)) /\
    drawings (log (recv frame s).2) =
      (drawings (log s) + 2 * length (detections res))%nat /\
    rectangles calls = map xyxy (detections res) /\
    captions calls =
      map (fun b =>
             (caption_of
                (label_text (names (_load_model_once s).2) (cls_id_of b))
                (conf_of b),
              let '(x1, y1, _, _) := xyxy b in text_org x1 y1))
        (detections res).
Proof.
  intros He Hm Hp.
  exists (draw_calls (names (_load_model_once s).2) (detections res)).
  rewrite (recv_enabled _ _ _ _ _ He Hm Hp). simpl.
  destruct (load_counts s) as (_ & Hi & Hd).
  repeat apply conj; try done.
  - change (ev_predict ?t :: ?l) with ([ev_predict t] ++ l)%list.
    rewrite !inferences_app, inferences_cv2, Hi.
    unfold inferences at 2. simpl. lia.
  - change (ev_predict ?t :: ?l) with ([ev_predict t] ++ l)%list.
    rewrite !drawings_app, drawings_cv2, draw_calls_length, Hd.
    unfold drawings at 2. simpl. lia.
  - apply draw_calls_rectangles.
  - apply draw_calls_captions.
Qed.

(** X5: the callback never writes the two control fields, and once the
    model is in place it leaves the Label Map and the imported class as
    they are. *)
Theorem recv_keeps_configuration (frame : VideoFrame) (s : State) :
  enable (recv frame s).2 = enable s /\
  confidence_threshold (recv frame s).2 = confidence_threshold s /\
  (Ready s ->
   names (recv frame s).2 = names s /\ YOLO (recv frame s).2 = YOLO s).
Proof.
  destruct (enable s) eqn:He.
  - destruct (recv_enabled_events frame s He) as [calls ->]. simpl.
    destruct (load_keeps_controls s) as [Ht Hen].
    repeat apply conj; try done; [congruence|].
    intros Hs. by rewrite load_ready.
  - by rewrite recv_paused.
Qed.

(** ** A script run, then a frame *)

(** X6: the end of a script run writes the two widget values into the
    processor and nothing else, and shows the status line; the next
    frame is returned as decoded when the toggle is off, and is
    inferred with the new threshold when it is on.  Without a
    processor nothing is bound and the warning is shown. *)
Theorem frame_after_script_run (e : bool) (v : float) (vp : State)
    (frame : VideoFrame) :
  script_tail e v None =
    (None,
     warning
       "Click the 'Start' button in the webcam widget if it is not connected.") /\
  exists vp',
    script_tail e v (Some vp) = (Some vp', info (status_line e v)) /\
    enable vp' = e /\ confidence_threshold vp' = v /\
    model vp' = model vp /\ names vp' = names vp /\
    YOLO vp' = YOLO vp /\ log vp' = log vp /\
    script_tail e v (Some vp') = (Some vp', info (status_line e v)) /\
    (e = false ->
     recv frame vp' = (inr (from_ndarray (to_ndarray frame)), vp')) /\
    (e = true ->
     exists calls,
       log (recv frame vp').2 =
         (log (_load_model_once vp').2
            ++ ev_predict v :: map ev_cv2 calls)%list).
Proof.
  split; [done|]. exists (bind_controls e v vp).
  repeat apply conj; try done.
  - intros ->. by apply recv_paused.
  - intros ->.
    destruct (recv_enabled_events frame (bind_controls true v vp) eq_refl)
      as [calls ->].
    by exists calls.
Qed.

(** X7: over the life of a processor every inference call was made
    with a threshold between 0.1 and 0.9. *)
Theorem inference_thresholds_in_range (s : State) (t : float) :
  reachable s ->
  In (ev_predict t) (log s) ->
  leb f0_1 t = true /\ leb t f0_9 = true.
Proof.
  intros Hs.
  assert (Hinv : slider_returns conf_slider (confidence_threshold s) = true /\
                 forall t', In (ev_predict t') (log s) ->
                            slider_returns conf_slider t' = true).
  { induction Hs as [|s frame Hs IH|s e v Hs IH Hv].
    - split; [done | by intros t' []].
    - destruct IH as [IHt IHl].
      destruct (enable s) eqn:He; [|by rewrite recv_paused].
      destruct (recv_enabled_events frame s He) as [calls ->]. simpl.
      destruct (load_keeps_controls s) as [-> _]. split; [done|].
      destruct (load_log s) as (evs & -> & Hevs).
      intros t' Hin. rewrite !in_app_iff in Hin.
      destruct Hin as [[Hin|Hin]|[Hin|Hin]].
      + by apply IHl.
      + rewrite Forall_forall in Hevs.
        apply list_elem_of_In, Hevs in Hin. done.
      + by injection Hin as <-.
      + apply in_map_iff in Hin as (c & Hc & _). done.
    - destruct IH as [_ IHl]. split; [exact Hv | exact IHl]. }
  intros Hin. destruct Hinv as [_ Hl].
  apply Hl in Hin. by apply andb_true_iff in Hin.
Qed.

End ProcessorMore.

(** ** Labels that are found *)

(** X8: when the Label Map holds a name for the class id (an entry of
    the mapping, or the element at that index of the sequence), the
    label is that name and the caption starts with it. *)
Theorem label_found_in_map (nm : Names) (cls_id : Z) (name : string)
    (c : float) :
  lookup_finds nm cls_id name ->
  label_of nm cls_id = inr name /\
  String.prefix name (caption_of (label_text nm cls_id) c) = true.
Proof.
  intros Hf.
  assert (Hl : label_of nm cls_id = inr name).
  { destruct nm as [d|l|]; simpl in *; [by rewrite Hf | | done].
    destruct Hf as [H0 Hn].
    pose proof (lookup_lt_Some _ _ _ Hn) as Hlt.
    replace ((0 <=? cls_id) && (cls_id <? Z.of_nat (length l))) with true.
    - by rewrite Hn.
    - symmetry. apply andb_true_iff. split; [apply Z.leb_le | apply Z.ltb_lt]; lia. }
  split; [exact Hl|].
  unfold label_text. rewrite Hl. apply prefix_append.
Qed.

(** ** Floats: the range of the percentage *)

Lemma shr_1_floor (mrs : shr_record) :
  0 <= shr_m mrs -> 2 * shr_m (shr_1 mrs) <= shr_m mrs.
Proof.
  destruct mrs as [m r s]; simpl. intros Hm.
  destruct m as [|[p|p|]|p]; simpl; lia.
Qed.

Lemma iter_shr_1_floor (p : positive) (mrs : shr_record) :
  0 <= shr_m mrs ->
  2 ^ Z.pos p * shr_m (SpecFloat.iter_pos shr_1 p mrs) <= shr_m mrs.
Proof.
  revert mrs. induction p as [p IH|p IH|]; intros mrs Hm.
  - change (SpecFloat.iter_pos shr_1 p~1 mrs)
      with (SpecFloat.iter_pos shr_1 p (SpecFloat.iter_pos shr_1 p (shr_1 mrs))).
    pose proof (shr_1_bounds mrs Hm) as Hb1.
    pose proof (shr_1_floor mrs Hm) as Hf1.
    pose proof (iter_shr_1_bounds p (shr_1 mrs) ltac:(lia)) as Hb2.
    pose proof (IH (shr_1 mrs) ltac:(lia)) as Hf2.
    pose proof (IH (SpecFloat.iter_pos shr_1 p (shr_1 mrs)) ltac:(lia)) as Hf3.
    pose proof (iter_shr_1_bounds p (SpecFloat.iter_pos shr_1 p (shr_1 mrs))
                  ltac:(lia)) as Hb3.
    assert (Hp : 0 < 2 ^ Z.pos p) by (apply Z.pow_pos_nonneg; lia).
    replace (Z.pos p~1) with (Z.pos p + Z.pos p + 1) by lia.
    rewrite !Z.pow_add_r by lia. change (2 ^ 1) with 2. nia.
  - change (SpecFloat.iter_pos shr_1 p~0 mrs)
      with (SpecFloat.iter_pos shr_1 p (SpecFloat.iter_pos shr_1 p mrs)).
    pose proof (iter_shr_1_bounds p mrs Hm) as Hb2.
    pose proof (IH mrs Hm) as Hf2.
    pose proof (IH (SpecFloat.iter_pos shr_1 p mrs) ltac:(lia)) as Hf3.
    pose proof (iter_shr_1_bounds p (SpecFloat.iter_pos shr_1 p mrs)
                  ltac:(lia)) as Hb3.
    assert (Hp : 0 < 2 ^ Z.pos p) by (apply Z.pow_pos_nonneg; lia).
    replace (Z.pos p~0) with (Z.pos p + Z.pos p) by lia.
    rewrite Z.pow_add_r by lia. nia.
  - change (2 ^ 1) with 2. by apply shr_1_floor.
Qed.

Lemma shr_fexp_floor (m e : Z) (l : location) :
  0 <= m ->
  e <= (shr_fexp prec emax m e l).2 /\
  shr_m (shr_fexp prec emax m e l).1 * 2 ^ ((shr_fexp prec emax m e l).2 - e)
    <= m.
Proof.
  intros Hm. unfold shr_fexp, shr.
  assert (Hr : shr_m (shr_record_of_loc m l) = m) by (by destruct l as [|[]]).
  destruct (fexp prec emax (Zdigits2 m + e) - e) as [|p|p] eqn:Hd; simpl.
  - rewrite Hr, Z.sub_diag. simpl. lia.
  - pose proof (iter_shr_1_floor p (shr_record_of_loc m l)) as Hf.
    rewrite Hr in Hf. replace (e + Z.pos p - e) with (Z.pos p) by lia.
    split; [lia|]. rewrite Z.mul_comm. by apply Hf.
  - rewrite Hr, Z.sub_diag. simpl. lia.
Qed.

Lemma binary_round_aux_below_100 (M : positive) (E : Z) :
  Z.pos M < 100 * 2 ^ (- E) -> E <= -98 ->
  binary_round_aux prec emax false (Z.pos M) E loc_Exact = S754_zero false \/
  exists m2 e2,
    binary_round_aux prec emax false (Z.pos M) E loc_Exact =
      S754_finite false m2 e2 /\
    e2 < 0 /\ Z.pos m2 <= 100 * 2 ^ (- e2).
Proof.
  intros HM HE. unfold binary_round_aux.
  assert (HME : Z.pos M < 2 ^ (7 - E)).
  { replace (7 - E) with (7 + - E) by lia. rewrite Z.pow_add_r by lia.
    change (2 ^ 7) with 128.
    assert (0 < 2 ^ (- E)) by (apply Z.pow_pos_nonneg; lia). lia. }
  pose proof (Zdigits2_le (Z.pos M) (7 - E) ltac:(lia) ltac:(lia)) as Hd1.
  simpl Zdigits2 in Hd1.
  pose proof (shr_fexp_bounds (Z.pos M) E loc_Exact ltac:(lia)) as [Hb1 He1].
  pose proof (shr_fexp_floor (Z.pos M) E loc_Exact ltac:(lia)) as [Hle1 Hf1].
  destruct (shr_fexp prec emax (Z.pos M) E loc_Exact) as [mrs1 e1].
  simpl in Hb1, He1, Hle1, Hf1.
  pose proof (round_nearest_even_bounds (shr_m mrs1) (loc_of_shr_record mrs1))
    as Hr.
  set (m1 := round_nearest_even (shr_m mrs1) (loc_of_shr_record mrs1)) in *.
  clearbody m1.
  assert (He1' : e1 <= -46)
    by (unfold fexp, SpecFloat.emin, prec, emax in He1; lia).
  assert (Hsplit1 : 2 ^ (- E) = 2 ^ (- e1) * 2 ^ (e1 - E)).
  { rewrite <- Z.pow_add_r by lia. f_equal. lia. }
  assert (Hp1 : 0 < 2 ^ (e1 - E)) by (apply Z.pow_pos_nonneg; lia).
  assert (Hq1 : 0 < 2 ^ (- e1)) by (apply Z.pow_pos_nonneg; lia).
  assert (HK : shr_m mrs1 < 100 * 2 ^ (- e1)) by nia.
  assert (Hm1 : 0 <= m1 <= 100 * 2 ^ (- e1)) by lia.
  assert (Hm1' : m1 < 2 ^ (7 - e1)).
  { replace (7 - e1) with (7 + - e1) by lia. rewrite Z.pow_add_r by lia.
    change (2 ^ 7) with 128. lia. }
  pose proof (Zdigits2_le m1 (7 - e1) ltac:(lia) ltac:(lia)) as Hd2.
  pose proof (shr_fexp_bounds m1 e1 loc_Exact ltac:(lia)) as [Hb2 He2].
  pose proof (shr_fexp_floor m1 e1 loc_Exact ltac:(lia)) as [Hle2 Hf2].
  destruct (shr_fexp prec emax m1 e1 loc_Exact) as [mrs2 e2].
  simpl in Hb2, He2, Hle2, Hf2.
  assert (He2' : e2 <= -46)
    by (unfold fexp, SpecFloat.emin, prec, emax in He2; lia).
  assert (Hsplit2 : 2 ^ (- e1) = 2 ^ (- e2) * 2 ^ (e2 - e1)).
  { rewrite <- Z.pow_add_r by lia. f_equal. lia. }
  assert (Hp2 : 0 < 2 ^ (e2 - e1)) by (apply Z.pow_pos_nonneg; lia).
  assert (Hq2 : 0 < 2 ^ (- e2)) by (apply Z.pow_pos_nonneg; lia).
  assert (Hm2 : shr_m mrs2 <= 100 * 2 ^ (- e2)) by nia.
  destruct (shr_m mrs2) as [|p|p]; [by left | right | lia].
  replace (e2 <=? emax - prec) with true
    by (symmetry; apply Z.leb_le; unfold emax, prec; lia).
  exists p, e2. repeat apply conj; [done | lia | done].
Qed.

Lemma round_half_even_le (m k : positive) (N : Z) :
  0 <= N -> Z.pos m <= N * 2 ^ Z.pos k ->
  0 <= round_half_even m (Z.neg k) <= N.
Proof.
  intros HN Hm.
  pose proof (round_half_even_scaled m k) as Hs.
  change (Z.pow_pos 2 k) with (2 ^ Z.pos k) in Hs.
  assert (Hd : 0 < 2 ^ Z.pos k) by (apply Z.pow_pos_nonneg; lia).
  set (n := round_half_even m (Z.neg k)) in *. clearbody n.
  set (d := 2 ^ Z.pos k) in *. clearbody d.
  split; nia.
Qed.

Lemma leb_finite_pos (m1 m2 : positive) (e1 e2 : Z) :
  leb (S754_finite false m1 e1) (S754_finite false m2 e2) = true ->
  e1 < e2 \/ (e1 = e2 /\ Z.pos m1 <= Z.pos m2).
Proof.
  unfold leb, SFleb, SFcompare.
  destruct (e1 ?= e2) eqn:He.
  - apply Z.compare_eq in He. intros Hm. right. split; [done|].
    change (Z.pos m1 <= Z.pos m2) with ((m1 ?= m2)%positive <> Gt).
    change (m1 ?= m2)%positive with (PosDef.Pos.compare_cont Eq m1 m2).
    intros Hgt. by rewrite Hgt in Hm.
  - intros _. by left.
  - done.
Qed.

Lemma in_unit_interval_below_one (m : positive) (e : Z) :
  in_unit_interval (S754_finite false m e) = true ->
  S754_finite false m e = f1_0 \/ (e <= -52 /\ Z.pos m < 2 ^ (- e)).
Proof.
  intros Hc.
  destruct (in_unit_interval_inv _ Hc) as [Hz|(m' & e' & Heq & Hm & He)];
    [discriminate Hz|].
  injection Heq as <- <-.
  unfold in_unit_interval in Hc.
  apply andb_true_iff in Hc as [_ Hle].
  apply leb_finite_pos in Hle as [Hlt|[-> Hle]].
  - right. split; [lia|].
    assert (2 ^ 53 <= 2 ^ (- e)) by (apply Z.pow_le_mono_r; lia). lia.
  - destruct (Z.eq_dec (Z.pos m) 4503599627370496) as [Heq|Hne].
    + left. injection Heq as ->. reflexivity.
    + right. split; [lia|].
      change (2 ^ (- -52)) with 4503599627370496. lia.
Qed.

(** X9: for a confidence between +0.0 and 1.0 the number shown in the
    caption lies between 0 and 100. *)
Theorem caption_percent_between_0_and_100 (label : string) (c : float) :
  in_unit_interval c = true ->
  exists n : Z,
    0 <= n <= 100 /\
    caption_of label c = label +:+ " " +:+ str_int n +:+ "%".
Proof.
  intros Hc. unfold caption_of.
  destruct c as [s|s| |s m e];
    try (by destruct (in_unit_interval_inv _ Hc) as [|(? & ? & ? & _)]).
  - destruct (in_unit_interval_inv _ Hc) as [Hz|(? & ? & ? & _)]; [|done].
    injection Hz as ->. by exists 0.
  - destruct (in_unit_interval_inv _ Hc) as [|(m' & e' & Heq & _)]; [done|].
    injection Heq as -> _ _.
    destruct (in_unit_interval_below_one m e Hc) as [->|[He Hm]].
    + by exists 100.
    + unfold mul, f100, SFmul. simpl xorb.
      destruct (binary_round_aux_below_100 (m * 7036874417766400) (e + -46))
        as [->|(m2 & e2 & -> & He2 & Hm2)].
      * rewrite Pos2Z.inj_mul.
        replace (- (e + -46)) with (- e + 46) by lia.
        rewrite Z.pow_add_r by lia.
        change (2 ^ 46) with 70368744177664. lia.
      * lia.
      * by exists 0.
      * destruct e2 as [|k|k]; [lia | lia |].
        exists (round_half_even m2 (Z.neg k)). split; [|done].
        apply round_half_even_le; [lia | exact Hm2].
Qed.

Lemma caption_percent_between_0_and_100_witness :
  in_unit_interval f0_83_single = true /\
  exists n : Z,
    0 <= n <= 100 /\
    caption_of "person" f0_83_single = "person" +:+ " " +:+ str_int n +:+ "%".
Proof.
  split; [reflexivity|].
  exact (caption_percent_between_0_and_100 "person" f0_83_single eq_refl).
Defined.

(** ** The status line *)

Lemma valid_normal (m : positive) (e : Z) :
  valid (S754_finite false m e) = true -> -1074 < e ->
  4503599627370496 <= Z.pos m < 9007199254740992.
Proof.
  unfold valid, valid_binary, bounded, canonical_mantissa. intros Hv He.
  apply andb_true_iff in Hv as [Hcan _]. apply Z.eqb_eq in Hcan.
  unfold fexp, SpecFloat.emin, prec, emax in Hcan.
  destruct (digits2_pos_bounds m) as [Hl Hu].
  assert (Hd : Z.pos (digits2_pos m) = 53) by lia.
  rewrite Hd in Hl, Hu.
  change (2 ^ (53 - 1)) with 4503599627370496 in Hl.
  change (2 ^ 53) with 9007199254740992 in Hu. lia.
Qed.

Lemma slider_value_inv (v : float) :
  valid v = true ->
  slider_returns conf_slider v = true ->
  exists m e,
    v = S754_finite false m e /\
    4503599627370496 <= Z.pos m < 9007199254740992 /\
    ((e = -56 /\ 7205759403792794 <= Z.pos m) \/ e = -55 \/ e = -54 \/
     (e = -53 /\ Z.pos m <= 8106479329266893)).
Proof.
  intros Hv Hs. unfold slider_returns, conf_slider in Hs. simpl in Hs.
  apply andb_true_iff in Hs as [Hlo Hhi].
  destruct v as [s|s| |s m e].
  - by destruct s.
  - by destruct s.
  - done.
  - destruct s; [done|].
    apply leb_finite_pos in Hlo, Hhi.
    exists m, e. split; [done|].
    split; [apply (valid_normal m e Hv); lia|]. lia.
Qed.

Lemma round_half_even_hundredths (m : positive) (e : Z) :
  4503599627370496 <= Z.pos m < 9007199254740992 ->
  ((e = -56 /\ 7205759403792794 <= Z.pos m) \/ e = -55 \/ e = -54 \/
   (e = -53 /\ Z.pos m <= 8106479329266893)) ->
  10 <= round_half_even (100 * m) e <= 90.
Proof.
  intros Hm He.
  assert (Hs : forall k : positive,
             2 * Z.abs (round_half_even (100 * m) (Z.neg k) * Z.pow_pos 2 k
                        - 100 * Z.pos m) <= Z.pow_pos 2 k).
  { intros k. pose proof (round_half_even_scaled (100 * m) k) as Hk.
    by rewrite Pos2Z.inj_mul in Hk. }
  destruct He as [[-> Hlo]|[->|[->|[-> Hhi]]]].
  - specialize (Hs 56%positive).
    change (Z.pow_pos 2 56) with 72057594037927936 in Hs.
    set (n := round_half_even (100 * m) (-56)) in *. clearbody n. lia.
  - specialize (Hs 55%positive).
    change (Z.pow_pos 2 55) with 36028797018963968 in Hs.
    set (n := round_half_even (100 * m) (-55)) in *. clearbody n. lia.
  - specialize (Hs 54%positive).
    change (Z.pow_pos 2 54) with 18014398509481984 in Hs.
    set (n := round_half_even (100 * m) (-54)) in *. clearbody n. lia.
  - specialize (Hs 53%positive).
    change (Z.pow_pos 2 53) with 9007199254740992 in Hs.
    set (n := round_half_even (100 * m) (-53)) in *. clearbody n. lia.
Qed.

(** X10: for a value the slider can return, the status line of a
    connected session reads "Status: Running" or "Status: Paused" by
    the toggle, then "| Threshold: 0." and the two digits of the
    hundredths nearest to the value, which lie between 10 and 90. *)
Theorem status_line_shows_threshold (e : bool) (v : float) :
  valid v = true ->
  slider_returns conf_slider v = true ->
  exists (q : Q) (n : Z),
    to_Q v = Some q /\
    nearest_integer (q * 100) n /\
    10 <= n <= 90 /\
    status_line e v =
      "Status: " +:+ (if e then "Running" else "Paused") +:+
      " | Threshold: 0." +:+ str_int n.
Proof.
  intros Hv Hs.
  destruct (slider_value_inv v Hv Hs) as (m & ex & -> & Hm & Hex).
  pose proof (round_half_even_hundredths m ex Hm Hex) as Hn.
  exists (1 * inject_Z (Z.pos m) * 2 ^ ex)%Q, (round_half_even (100 * m) ex).
  split; [done|]. split; [|split; [exact Hn|]].
  - apply (nearest_integer_wd (inject_Z (Z.pos (100 * m)) * 2 ^ ex)).
    + rewrite Pos2Z.inj_mul, inject_Z_mult.
      set (x := inject_Z (Z.pos m)). set (y := (2 ^ ex)%Q).
      change (inject_Z 100) with 100%Q. ring.
    + apply round_half_even_nearest.
  - unfold status_line, format_2f, two_digits.
    set (n := round_half_even (100 * m) ex) in *. clearbody n.
    rewrite Z.div_small, Z.mod_small by lia.
    replace (n <? 10) with false by (symmetry; apply Z.ltb_ge; lia).
    by destruct e.
Qed.

Lemma status_line_shows_threshold_witness :
  valid f0_25 = true /\
  slider_returns conf_slider f0_25 = true /\
  exists (q : Q) (n : Z),
    to_Q f0_25 = Some q /\
    nearest_integer (q * 100) n /\
    10 <= n <= 90 /\
    status_line true f0_25 = "Status: Running | Threshold: 0." +:+ str_int n.
Proof.
  split; [reflexivity|]. split; [reflexivity|].
  exact (status_line_shows_threshold true f0_25 eq_refl eq_refl).
Defined.

(** ** The further properties at work on the small instance *)

Lemma reachable_calls_in_order_witness :
  @reachable Demo.libs (@recv Demo.libs [] init).2 /\
  model (@recv Demo.libs [] init).2 = Some Demo.candidates /\
  exists rest,
    log (@recv Demo.libs [] init).2 =
      ev_import :: ev_construct "yolov8n.pt" :: rest /\
    Forall (fun ev => is_predict ev || is_cv2 ev = true) rest.
Proof.
  assert (Hr : @reachable Demo.libs (@recv Demo.libs [] init).2)
    by apply reach_recv, reach_init.
  split; [exact Hr|]. split; [reflexivity|].
  pose proof (@reachable_calls_in_order Demo.libs _ Hr) as Hs.
  change (model (@recv Demo.libs [] init).2) with (Some Demo.candidates) in Hs.
  exact (proj2 (proj2 (proj2 Hs))).
Defined.

Lemma recv_enabled_calls_witness :
  enable (@init Demo.libs) = true /\
  @predict Demo.libs Demo.candidates [] f0_25 =
    [mkResults (Some Demo.candidates)] /\
  exists calls,
    (@recv Demo.libs [] init).1 = inr calls /\
    rectangles calls = [(50, 60, 200, 220); (10, 0, 40, 30)] /\
    captions calls = [("person 83%", (50, 52)); ("999 25%", (10, 0))] /\
    drawings (log (@recv Demo.libs [] init).2) = 4%nat.
Proof.
  split; [reflexivity|]. split; [reflexivity|].
  destruct (@recv_enabled_calls Demo.libs [] init Demo.candidates
              (mkResults (Some Demo.candidates)) [] eq_refl eq_refl eq_refl)
    as (calls & _ & Hret & _ & Hd & Hrect & Hcap).
  exists (@draw Demo.libs calls []).
  split; [exact Hret|].
  injection Hret as <-.
  split; [reflexivity|]. split; [reflexivity|]. exact Hd.
Defined.

Lemma inference_thresholds_in_range_witness :
  @reachable Demo.libs (@recv Demo.libs [] init).2 /\
  In (ev_predict f0_25) (log (@recv Demo.libs [] init).2) /\
  leb f0_1 f0_25 = true /\ leb f0_25 f0_9 = true.
Proof.
  assert (Hr : @reachable Demo.libs (@recv Demo.libs [] init).2)
    by apply reach_recv, reach_init.
  assert (Hin : In (ev_predict f0_25) (log (@recv Demo.libs [] init).2))
    by (simpl; tauto).
  split; [exact Hr|]. split; [exact Hin|].
  exact (@inference_thresholds_in_range Demo.libs _ f0_25 Hr Hin).
Defined.

Lemma label_found_in_map_witness :
  lookup_finds (names_seq ["person"; "bicycle"]) 1 "bicycle" /\
  label_of (names_seq ["person"; "bicycle"]) 1 = inr "bicycle".
Proof.
  assert (Hf : lookup_finds (names_seq ["person"; "bicycle"]) 1 "bicycle")
    by (split; [lia | reflexivity]).
  split; [exact Hf|].
  exact (proj1 (label_found_in_map _ 1 "bicycle" f0_25 Hf)).
Defined.

(** ** What the callback does with the result of [predict] *)

Section DetectFacts.

Context `{Libraries}.


End DetectFacts.


